(** * Papertrail sink (src/sinks/papertrail.rs): a shallow embedding

    The sink resolves its endpoint and TLS policy once ([build]) and then
    encodes every event with [encode_event]: the host field is removed and
    becomes the syslog hostname, the encoding rules are applied, the body is
    rendered as JSON (serde_json) or as the message text, and the RFC 3164
    line of the [syslog] crate is written into a [Vec<u8>] and terminated by
    a newline. *)

From Stdlib Require Import String Ascii List ZArith Bool Lia.
From Stdlib Require Import DecimalN DecimalPos.
Import ListNotations.
Open Scope string_scope.
Set Warnings "-register-all".

(** ** Rust effects: panics and [Result] *)

(** A call either returns or panics (an [unwrap] on an [Err], a failed
    type coercion). *)
Inductive outcome (A : Type) : Type :=
| Ret (a : A)
| Panic (msg : string).
Arguments Ret {A} a.
Arguments Panic {A} msg.

Definition bind {A B : Type} (m : outcome A) (k : A -> outcome B) : outcome B :=
  match m with
  | Ret a => k a
  | Panic msg => Panic msg
  end.

Notation "x <- m ;; k" := (bind m (fun x => k))
  (at level 61, m at next level, right associativity).

(** Rust's [Result<T, E>]. *)
Inductive result (T E : Type) : Type :=
| Ok (t : T)
| Err (e : E).
Arguments Ok {T E} t.
Arguments Err {T E} e.

(** [Result::unwrap]. *)
Definition unwrap {T E : Type} (r : result T E) : outcome T :=
  match r with
  | Ok t => Ret t
  | Err _ => Panic "called `Result::unwrap()` on an `Err` value"
  end.

(** ** Characters and decimal rendering *)

Definition quote : ascii := "034".
Definition backslash : ascii := "092".
Definition newline : ascii := "010".

(** The digits of a [Decimal.uint], most significant first. *)
Fixpoint uint_to_string (d : Decimal.uint) : string :=
  match d with
  | Decimal.Nil => EmptyString
  | Decimal.D0 d => String "0" (uint_to_string d)
  | Decimal.D1 d => String "1" (uint_to_string d)
  | Decimal.D2 d => String "2" (uint_to_string d)
  | Decimal.D3 d => String "3" (uint_to_string d)
  | Decimal.D4 d => String "4" (uint_to_string d)
  | Decimal.D5 d => String "5" (uint_to_string d)
  | Decimal.D6 d => String "6" (uint_to_string d)
  | Decimal.D7 d => String "7" (uint_to_string d)
  | Decimal.D8 d => String "8" (uint_to_string d)
  | Decimal.D9 d => String "9" (uint_to_string d)
  end.

(** [Display] of an integer ([itoa] in serde_json, [{}] in [format!]). *)
Definition Z_to_string (z : Z) : string :=
  match z with
  | Zneg p => String "-" (uint_to_string (N.to_uint (Npos p)))
  | _ => uint_to_string (N.to_uint (Z.to_N z))
  end.

(** [{:02}]: at least two digits, zero padded. *)
Definition pad2 (n : nat) : string :=
  if (n <? 10)%nat then String "0" (Z_to_string (Z.of_nat n))
  else Z_to_string (Z.of_nat n).

(** ** Event values (vector's [event::Value], [LogEvent], [Event]) *)

(** An [f64]. A finite double is kept as the decimal mantissa and exponent
    [m * 10^e] of its shortest representation. *)
Inductive f64 : Type :=
| Finite (m e : Z)
| NaN
| Infinity
| NegInfinity.

Inductive Value : Type :=
| Bytes (s : string)
| Integer (i : Z)
| Float (f : f64)
| Boolean (b : bool)
| Timestamp (rfc3339 : string)   (** kept as its RFC 3339 text *)
| Map (m : list (string * Value))
| Array (a : list Value)
| Null.

(** The fields of a log event: vector keeps them in a [BTreeMap]; here an
    association list in the map's iteration order. *)
Record LogEvent : Type := mk_log { fields : list (string * Value) }.

Inductive Event : Type :=
| Log (l : LogEvent)
| Metric (name : string).

(** [LogEvent::get]. *)
Definition get (key : string) (log : LogEvent) : option Value :=
  option_map snd (find (fun kv => String.eqb (fst kv) key) (fields log)).

(** [LogEvent::remove]: the removed value and the event without the key. *)
Definition remove (key : string) (log : LogEvent) : option Value * LogEvent :=
  (get key log,
   mk_log (filter (fun kv => negb (String.eqb (fst kv) key)) (fields log))).

(** [Event::as_mut_log] and [Event::into_log]: a metric panics. *)
Definition as_log (e : Event) : outcome LogEvent :=
  match e with
  | Log l => Ret l
  | Metric _ => Panic "Failed type coercion, Metric is not a log event"
  end.

(** Modelled from the spec: [log_schema()] (src/config/log_schema.rs is
    not in the sources); its default host and message keys. *)
Definition host_key : string := "host".
Definition message_key : string := "message".

(** ** JSON (serde_json) *)

(** The JSON data written by serde_json's serializer. A finite double is
    written as [m e x] with the same value as ryu's shortest text. *)
Inductive json : Type :=
| JNull
| JBool (b : bool)
| JInt (z : Z)
| JFloat (m e : Z)
| JString (s : string)
| JArray (l : list json)
| JObject (l : list (string * json)).

(** [impl Serialize for Value], through serde_json's serializer: bytes and
    timestamps are written as strings; serde_json's [serialize_f64] writes a
    NaN or an infinity as [null]. *)
Fixpoint to_json (v : Value) : json :=
  match v with
  | Bytes s => JString s
  | Integer i => JInt i
  | Float (Finite m e) => JFloat m e
  | Float _ => JNull
  | Boolean b => JBool b
  | Timestamp t => JString t
  | Map m => JObject (map (fun '(k, x) => (k, to_json x)) m)
  | Array a => JArray (map to_json a)
  | Null => JNull
  end.

(** [impl Serialize for LogEvent]: [collect_map] over the fields. *)
Definition json_of_log (log : LogEvent) : json :=
  JObject (map (fun '(k, x) => (k, to_json x)) (fields log)).

(** A lower-case hex digit (serde_json's [HEX_DIGITS]). *)
Definition hex_digit (n : N) : ascii :=
  if (n <? 10)%N then ascii_of_N (48 + n) else ascii_of_N (87 + n).

(** serde_json's [ESCAPE] table: quote, backslash and the control
    characters below 0x20 are escaped, every other byte is written as is. *)
Definition escape_char (c : ascii) : string :=
  let n := N_of_ascii c in
  if Ascii.eqb c quote then String backslash (String quote EmptyString)
  else if Ascii.eqb c backslash then String backslash (String backslash EmptyString)
  else if (n =? 8)%N then "\b"
  else if (n =? 9)%N then "\t"
  else if (n =? 10)%N then "\n"
  else if (n =? 12)%N then "\f"
  else if (n =? 13)%N then "\r"
  else if (n <? 32)%N then
    String backslash (String "u" (String "0" (String "0"
      (String (hex_digit (n / 16)) (String (hex_digit (n mod 16)) EmptyString)))))
  else String c EmptyString.

Fixpoint escape_string (s : string) : string :=
  match s with
  | EmptyString => EmptyString
  | String c r => escape_char c ++ escape_string r
  end.

(** [format_escaped_str]. *)
Definition quoted (s : string) : string :=
  String quote (escape_string s ++ String quote EmptyString).

(** serde_json's compact formatter. *)
Fixpoint render_json (j : json) : string :=
  match j with
  | JNull => "null"
  | JBool true => "true"
  | JBool false => "false"
  | JInt z => Z_to_string z
  | JFloat m e => Z_to_string m ++ "e" ++ Z_to_string e
  | JString s => quoted s
  | JArray l =>
      "[" ++ (fix elems (l : list json) : string :=
                match l with
                | [] => EmptyString
                | x :: r => render_json x ++
                            match r with [] => EmptyString | _ => "," ++ elems r end
                end) l ++ "]"
  | JObject l =>
      "{" ++ (fix members (l : list (string * json)) : string :=
                match l with
                | [] => EmptyString
                | (k, x) :: r => quoted k ++ ":" ++ render_json x ++
                            match r with [] => EmptyString | _ => "," ++ members r end
                end) l ++ "}"
  end.

(** [serde_json::to_string(&log)]: no value of a log event makes it fail
    (keys are strings and non-finite floats are written as [null]). *)
Inductive serde_error : Type := SerdeCustom (msg : string).

Definition serde_json_to_string (log : LogEvent) : result string serde_error :=
  Ok (render_json (json_of_log log)).

(** [Value::to_string_lossy]: the display string of a value. Floats use
    Rust's [Display] for [f64]. *)
Definition f64_display (f : f64) : string :=
  match f with
  | NaN => "NaN"
  | Infinity => "inf"
  | NegInfinity => "-inf"
  | Finite m e =>
      if (0 <=? e)%Z then Z_to_string (m * 10 ^ e)%Z
      else
        let k := Z.to_nat (Z.opp e) in
        let a := Z.abs m in
        let ip := (a / 10 ^ Z.opp e)%Z in
        let fp := (a mod 10 ^ Z.opp e)%Z in
        let digits := uint_to_string (N.to_uint (Z.to_N fp)) in
        let fr := (fix zeros (n : nat) : string :=
                     match n with O => EmptyString | S n => String "0" (zeros n) end)
                    (k - String.length digits) ++ digits in
        let fr := (fix strip (s : list ascii) : list ascii :=
                     match s with
                     | "0"%char :: r => strip r
                     | _ => s
                     end) (rev (list_ascii_of_string fr)) in
        (if (m <? 0)%Z then "-" else "") ++ Z_to_string ip ++
        match fr with
        | [] => EmptyString
        | _ => "." ++ string_of_list_ascii (rev fr)
        end
  end.

Definition to_string_lossy (v : Value) : string :=
  match v with
  | Bytes s => s
  | Integer i => Z_to_string i
  | Float f => f64_display f
  | Boolean b => if b then "true" else "false"
  | Timestamp t => t
  | Map _ | Array _ => render_json (to_json v)
  | Null => "<null>"
  end.

(** ** Encoding configuration and its rules *)

Inductive Encoding : Type := Json | Text.

(** Modelled from the spec: [EncodingConfig] and
    [EncodingConfiguration::apply_rules] (src/sinks/util/encoding is not in
    the sources): a codec and an optional allow-list [only_fields] and
    deny-list [except_fields]; the rules keep the allowed fields and remove
    the excluded ones, and leave a metric unchanged. *)
Record EncodingConfig : Type := mk_encoding {
  codec : Encoding;
  only_fields : option (list string);
  except_fields : option (list string)
}.

Definition mem (k : string) (ks : list string) : bool :=
  existsb (String.eqb k) ks.

Definition apply_only_fields (enc : EncodingConfig) (log : LogEvent) : LogEvent :=
  match only_fields enc with
  | Some only => mk_log (filter (fun kv => mem (fst kv) only) (fields log))
  | None => log
  end.

Definition apply_except_fields (enc : EncodingConfig) (log : LogEvent) : LogEvent :=
  match except_fields enc with
  | Some except => mk_log (filter (fun kv => negb (mem (fst kv) except)) (fields log))
  | None => log
  end.

Definition apply_rules (enc : EncodingConfig) (e : Event) : Event :=
  match e with
  | Log log => Log (apply_except_fields enc (apply_only_fields enc log))
  | Metric m => Metric m
  end.

(** ** The [syslog] crate: [Formatter3164] *)

Inductive Facility : Type :=
| LOG_KERN | LOG_USER | LOG_MAIL | LOG_DAEMON | LOG_AUTH | LOG_SYSLOG
| LOG_LPR | LOG_NEWS | LOG_UUCP | LOG_CRON | LOG_AUTHPRIV | LOG_FTP
| LOG_LOCAL0 | LOG_LOCAL1 | LOG_LOCAL2 | LOG_LOCAL3
| LOG_LOCAL4 | LOG_LOCAL5 | LOG_LOCAL6 | LOG_LOCAL7.

Definition facility_code (f : Facility) : Z :=
  Z.shiftl
    match f with
    | LOG_KERN => 0 | LOG_USER => 1 | LOG_MAIL => 2 | LOG_DAEMON => 3
    | LOG_AUTH => 4 | LOG_SYSLOG => 5 | LOG_LPR => 6 | LOG_NEWS => 7
    | LOG_UUCP => 8 | LOG_CRON => 9 | LOG_AUTHPRIV => 10 | LOG_FTP => 11
    | LOG_LOCAL0 => 16 | LOG_LOCAL1 => 17 | LOG_LOCAL2 => 18 | LOG_LOCAL3 => 19
    | LOG_LOCAL4 => 20 | LOG_LOCAL5 => 21 | LOG_LOCAL6 => 22 | LOG_LOCAL7 => 23
    end%Z 3.

Inductive Severity : Type :=
| LOG_EMERG | LOG_ALERT | LOG_CRIT | LOG_ERR
| LOG_WARNING | LOG_NOTICE | LOG_INFO | LOG_DEBUG.

Definition severity_code (s : Severity) : Z :=
  match s with
  | LOG_EMERG => 0 | LOG_ALERT => 1 | LOG_CRIT => 2 | LOG_ERR => 3
  | LOG_WARNING => 4 | LOG_NOTICE => 5 | LOG_INFO => 6 | LOG_DEBUG => 7
  end%Z.

(** [encode_priority]: [facility as u8 | severity as u8]. *)
Definition encode_priority (sev : Severity) (fac : Facility) : Z :=
  Z.lor (facility_code fac) (severity_code sev).

Record Formatter3164 : Type := mk_formatter {
  facility : Facility;
  hostname : option string;
  process : string;
  pid : Z   (** an [i32] *)
}.

(** The broken-down local time [time::now()] returns. *)
Inductive Month : Type :=
| Jan | Feb | Mar | Apr | May | Jun | Jul | Aug | Sep | Oct | Nov | Dec.

Record Tm : Type := mk_tm {
  tm_mon : Month;
  tm_mday : nat;
  tm_hour : nat;
  tm_min : nat;
  tm_sec : nat
}.

Definition month_abbrev (m : Month) : string :=
  match m with
  | Jan => "Jan" | Feb => "Feb" | Mar => "Mar" | Apr => "Apr"
  | May => "May" | Jun => "Jun" | Jul => "Jul" | Aug => "Aug"
  | Sep => "Sep" | Oct => "Oct" | Nov => "Nov" | Dec => "Dec"
  end.

Inductive ParseError : Type :=
| InvalidFormatSpecifier (c : ascii)
| MissingFormatConverter.

(** [Tm::strftime] followed by [Display]: the format is validated first
    and then rendered. The converters rendered here are those the formatter
    uses ([%b], [%d], [%T]); any other is refused. *)
Fixpoint strftime (fmt : string) (t : Tm) : result string ParseError :=
  match fmt with
  | EmptyString => Ok EmptyString
  | String "%" EmptyString => Err MissingFormatConverter
  | String "%" (String c r) =>
      let piece :=
        if Ascii.eqb c "b" then Some (month_abbrev (tm_mon t))
        else if Ascii.eqb c "d" then Some (pad2 (tm_mday t))
        else if Ascii.eqb c "T" then
          Some (pad2 (tm_hour t) ++ ":" ++ pad2 (tm_min t) ++ ":" ++ pad2 (tm_sec t))
        else None in
      match piece, strftime r t with
      | None, _ => Err (InvalidFormatSpecifier c)
      | Some _, Err e => Err e
      | Some p, Ok rest => Ok (p ++ rest)
      end
  | String c r =>
      match strftime r t with
      | Ok rest => Ok (String c rest)
      | Err e => Err e
      end
  end.

(** [std::io::Write], as [write!] uses it. *)
Inductive io_error : Type := IoError (msg : string).

Class Write (W : Type) := write_all : W -> string -> result W io_error.

(** [Vec<u8>]: writing appends the bytes and never fails. *)
#[export] Instance Write_Vec : Write string := fun w s => Ok (w ++ s).

Fixpoint write_pieces {W : Type} `{Write W} (w : W) (ps : list string)
  : result W io_error :=
  match ps with
  | [] => Ok w
  | p :: ps =>
      match write_all w p with
      | Ok w => write_pieces w ps
      | Err e => Err e
      end
  end.

(** The [syslog] crate's error, [ErrorKind::Format] chained on the I/O
    error. *)
Inductive SyslogError : Type := Format (cause : io_error).

Definition chain_err {W : Type} (r : result W io_error) : result W SyslogError :=
  match r with
  | Ok w => Ok w
  | Err e => Err (Format e)
  end.

(** [impl LogFormat<T> for Formatter3164]: [format]. The time stamp is
    [time::now().strftime("%b %d %T").unwrap()], taken when the arguments
    of [write!] are evaluated; [now] is the clock's reading. *)
Definition format {W : Type} `{Write W} (f : Formatter3164) (w : W)
    (severity : Severity) (message : string) (now : Tm)
  : outcome (result W SyslogError) :=
  ts <- unwrap (strftime "%b %d %T" now) ;;
  Ret (chain_err
    match hostname f with
    | Some h =>
        write_pieces w ["<"; Z_to_string (encode_priority severity (facility f)); ">";
                        ts; " "; h; " "; process f; "["; Z_to_string (pid f); "]: ";
                        message]
    | None =>
        write_pieces w ["<"; Z_to_string (encode_priority severity (facility f)); ">";
                        ts; " "; process f; "["; Z_to_string (pid f); "]: ";
                        message]
    end).

(** ** [encode_event] *)

(** [pid as i32]: the [u32] reinterpreted in two's complement. *)
Definition u32_as_i32 (p : Z) : Z :=
  let p := (p mod 2 ^ 32)%Z in
  if (p <? 2 ^ 31)%Z then p else (p - 2 ^ 32)%Z.

Section Encoder.

(** The JSON serializer the encoder calls ([serde_json::to_string]); it is
    instantiated with [serde_json_to_string] below. *)
Variable to_json_string : LogEvent -> result string serde_error.

Definition encode_event_with (event : Event) (pid : Z) (encoding : EncodingConfig)
    (now : Tm) : outcome (option string) :=
  log <- as_log event ;;
  let (removed, log) := remove host_key log in
  let host := match removed with
              | Some host => Some (to_string_lossy host)
              | None => None
              end in
  let formatter := {| facility := LOG_USER;
                      hostname := host;
                      process := "vector";
                      pid := u32_as_i32 pid |} in
  let s := EmptyString in
  let event := apply_rules encoding (Log log) in
  log <- as_log event ;;
  message <- match codec encoding with
             | Json => unwrap (to_json_string log)
             | Text => Ret (match get message_key log with
                            | Some v => to_string_lossy v
                            | None => EmptyString
                            end)
             end ;;
  r <- format formatter s LOG_INFO message now ;;
  s <- unwrap r ;;
  let s := s ++ String newline EmptyString in
  Ret (Some s).

End Encoder.

(** [encode_event(event, pid, encoding)], with [now] the local time read
    by the formatter. *)
Definition encode_event (event : Event) (pid : Z) (encoding : EncodingConfig)
    (now : Tm) : outcome (option string) :=
  encode_event_with serde_json_to_string event pid encoding now.

(** ** [PapertrailConfig::build] *)

(** The endpoint ([UriSerde]): the host and the [u16] port of the parsed
    URI, when it has them. *)
Record Uri : Type := mk_uri {
  uri_host : option string;
  uri_port : option Z
}.

(** Modelled from the spec: [TlsConfig] and [TlsConfig::enabled]
    (src/tls is not in the sources): [enabled] and the trust settings, all
    left to their defaults ([None]) by [TlsConfig::enabled], which turns TLS
    on. *)
Record TlsConfig : Type := mk_tls {
  tls_enabled : option bool;
  verify_certificate : option bool;
  verify_hostname : option bool;
  ca_path : option string;
  crt_path : option string;
  key_path : option string;
  key_pass : option string
}.

Definition TlsConfig_enabled : TlsConfig :=
  {| tls_enabled := Some true; verify_certificate := None; verify_hostname := None;
     ca_path := None; crt_path := None; key_path := None; key_pass := None |}.

Record PapertrailConfig : Type := mk_config {
  endpoint : Uri;
  encoding : EncodingConfig;
  tls : option TlsConfig
}.

(** What [build] hands to the TCP transport: [TcpSinkConfig::new(address,
    tls)] and the per-event encoder closed over [pid] and [encoding]. *)
Record TcpSink : Type := mk_tcp_sink {
  address : string;
  sink_tls : option TlsConfig;
  sink_encode : Event -> Tm -> outcome (option string)
}.

(** [PapertrailConfig::build]; [pid] is [std::process::id()]. *)
Definition build (this : PapertrailConfig) (pid : Z) : result TcpSink string :=
  match uri_host (endpoint this) with
  | None => Err "A host is required for endpoint"
  | Some host =>
      match uri_port (endpoint this) with
      | None => Err "A port is required for endpoint"
      | Some port =>
          let address := host ++ ":" ++ Z_to_string port in
          let tls := Some (match tls this with
                           | Some t => t
                           | None => TlsConfig_enabled
                           end) in
          let encoding := encoding this in
          Ok {| address := address;
                sink_tls := tls;
                sink_encode := fun event now => encode_event event pid encoding now |}
      end
  end.

(** ** Reading a JSON body back ([serde_json::from_slice])

    A reader for compact JSON, the text serde_json's writer produces (no
    white space between tokens); the [\u] escapes it decodes are those
    below 0x80. *)

Definition hex_value (c : ascii) : option N :=
  let n := N_of_ascii c in
  if (48 <=? n)%N && (n <=? 57)%N then Some (n - 48)%N
  else if (97 <=? n)%N && (n <=? 102)%N then Some (n - 87)%N
  else if (65 <=? n)%N && (n <=? 70)%N then Some (n - 55)%N
  else None.

Definition decode_u (h1 h2 h3 h4 : ascii) : option ascii :=
  match hex_value h1, hex_value h2, hex_value h3, hex_value h4 with
  | Some a, Some b, Some c, Some d =>
      let code := (a * 4096 + b * 256 + c * 16 + d)%N in
      if (code <? 128)%N then Some (ascii_of_N code) else None
  | _, _, _, _ => None
  end.

Definition simple_unescape (e : ascii) : option ascii :=
  if Ascii.eqb e quote then Some quote
  else if Ascii.eqb e backslash then Some backslash
  else if Ascii.eqb e "/" then Some "/"%char
  else if Ascii.eqb e "b" then Some (ascii_of_N 8)
  else if Ascii.eqb e "t" then Some (ascii_of_N 9)
  else if Ascii.eqb e "n" then Some (ascii_of_N 10)
  else if Ascii.eqb e "f" then Some (ascii_of_N 12)
  else if Ascii.eqb e "r" then Some (ascii_of_N 13)
  else None.

Definition cons_fst (c : ascii) (o : option (string * string)) : option (string * string) :=
  match o with
  | Some (s, r) => Some (String c s, r)
  | None => None
  end.

(** The characters of a string literal up to its closing quote, and what
    follows the quote. *)
Fixpoint parse_string_body (s : string) : option (string * string) :=
  match s with
  | EmptyString => None
  | String c r =>
      if Ascii.eqb c quote then Some (EmptyString, r)
      else if Ascii.eqb c backslash then
        match r with
        | EmptyString => None
        | String e r1 =>
            if Ascii.eqb e "u" then
              match r1 with
              | String h1 (String h2 (String h3 (String h4 r5))) =>
                  match decode_u h1 h2 h3 h4 with
                  | Some ch => cons_fst ch (parse_string_body r5)
                  | None => None
                  end
              | _ => None
              end
            else
              match simple_unescape e with
              | Some ch => cons_fst ch (parse_string_body r1)
              | None => None
              end
        end
      else if (N_of_ascii c <? 32)%N then None
      else cons_fst c (parse_string_body r)
  end.

Definition digit_of (c : ascii) : option (Decimal.uint -> Decimal.uint) :=
  if Ascii.eqb c "0" then Some Decimal.D0
  else if Ascii.eqb c "1" then Some Decimal.D1
  else if Ascii.eqb c "2" then Some Decimal.D2
  else if Ascii.eqb c "3" then Some Decimal.D3
  else if Ascii.eqb c "4" then Some Decimal.D4
  else if Ascii.eqb c "5" then Some Decimal.D5
  else if Ascii.eqb c "6" then Some Decimal.D6
  else if Ascii.eqb c "7" then Some Decimal.D7
  else if Ascii.eqb c "8" then Some Decimal.D8
  else if Ascii.eqb c "9" then Some Decimal.D9
  else None.

Fixpoint parse_digits (s : string) : Decimal.uint * string :=
  match s with
  | EmptyString => (Decimal.Nil, EmptyString)
  | String c r =>
      match digit_of c with
      | Some d => let (u, r') := parse_digits r in (d u, r')
      | None => (Decimal.Nil, s)
      end
  end.

Definition parse_unsigned (s : string) : option (Z * string) :=
  match parse_digits s with
  | (Decimal.Nil, _) => None
  | (d, r) => Some (Z.of_N (N.of_uint d), r)
  end.

Definition parse_int (s : string) : option (Z * string) :=
  match s with
  | String c r =>
      if Ascii.eqb c "-" then
        match parse_unsigned r with
        | Some (z, r') => Some (Z.opp z, r')
        | None => None
        end
      else parse_unsigned s
  | EmptyString => None
  end.

Definition parse_number (s : string) : option (json * string) :=
  match parse_int s with
  | Some (m, String c r) =>
      if Ascii.eqb c "e" then
        match parse_int r with
        | Some (e, r') => Some (JFloat m e, r')
        | None => None
        end
      else Some (JInt m, String c r)
  | Some (m, EmptyString) => Some (JInt m, EmptyString)
  | None => None
  end.

Fixpoint strip_prefix (p s : string) : option string :=
  match p with
  | EmptyString => Some s
  | String c p' =>
      match s with
      | String d s' => if Ascii.eqb c d then strip_prefix p' s' else None
      | EmptyString => None
      end
  end.

Fixpoint parse_value (fuel : nat) (s : string) : option (json * string) :=
  match fuel with
  | O => None
  | S fuel =>
      match s with
      | EmptyString => None
      | String c r =>
          if Ascii.eqb c "n" then option_map (fun r => (JNull, r)) (strip_prefix "ull" r)
          else if Ascii.eqb c "t" then option_map (fun r => (JBool true, r)) (strip_prefix "rue" r)
          else if Ascii.eqb c "f" then option_map (fun r => (JBool false, r)) (strip_prefix "alse" r)
          else if Ascii.eqb c quote then
            match parse_string_body r with
            | Some (str, r') => Some (JString str, r')
            | None => None
            end
          else if Ascii.eqb c "[" then
            match r with
            | String d r' =>
                if Ascii.eqb d "]" then Some (JArray [], r')
                else match parse_elems fuel r with
                     | Some (l, r') => Some (JArray l, r')
                     | None => None
                     end
            | EmptyString => None
            end
          else if Ascii.eqb c "{" then
            match r with
            | String d r' =>
                if Ascii.eqb d "}" then Some (JObject [], r')
                else match parse_members fuel r with
                     | Some (l, r') => Some (JObject l, r')
                     | None => None
                     end
            | EmptyString => None
            end
          else parse_number s
      end
  end
with parse_elems (fuel : nat) (s : string) : option (list json * string) :=
  match fuel with
  | O => None
  | S fuel =>
      match parse_value fuel s with
      | Some (v, String c r) =>
          if Ascii.eqb c "," then
            match parse_elems fuel r with
            | Some (l, r') => Some (v :: l, r')
            | None => None
            end
          else if Ascii.eqb c "]" then Some ([v], r)
          else None
      | _ => None
      end
  end
with parse_members (fuel : nat) (s : string) : option (list (string * json) * string) :=
  match fuel with
  | O => None
  | S fuel =>
      match s with
      | String c r =>
          if Ascii.eqb c quote then
            match parse_string_body r with
            | Some (k, String d r1) =>
                if Ascii.eqb d ":" then
                  match parse_value fuel r1 with
                  | Some (v, String c2 r2) =>
                      if Ascii.eqb c2 "," then
                        match parse_members fuel r2 with
                        | Some (l, r3) => Some ((k, v) :: l, r3)
                        | None => None
                        end
                      else if Ascii.eqb c2 "}" then Some ([(k, v)], r2)
                      else None
                  | _ => None
                  end
                else None
            | _ => None
            end
          else None
      | EmptyString => None
      end
  end.

(** A whole document: one value and nothing after it. *)
Definition parse_json (s : string) : option json :=
  match parse_value (S (String.length s)) s with
  | Some (j, EmptyString) => Some j
  | _ => None
  end.

(** ** Auxiliary definitions for the proofs *)

(** The element and member lists of [render_json], as functions of their own. *)
Fixpoint render_elems (l : list json) : string :=
  match l with
  | [] => EmptyString
  | x :: r => render_json x ++ match r with [] => EmptyString | _ => "," ++ render_elems r end
  end.

Fixpoint render_members (l : list (string * json)) : string :=
  match l with
  | [] => EmptyString
  | (k, x) :: r => quoted k ++ ":" ++ render_json x ++
                   match r with [] => EmptyString | _ => "," ++ render_members r end
  end.

Fixpoint json_size (j : json) : nat :=
  match j with
  | JArray l => S (list_sum (map (fun x => S (json_size x)) l))
  | JObject l => S (list_sum (map (fun kv => S (json_size (snd kv))) l))
  | _ => O
  end.

Definition elems_size (l : list json) : nat :=
  list_sum (map (fun x => S (json_size x)) l).

Definition members_size (l : list (string * json)) : nat :=
  list_sum (map (fun kv => S (json_size (snd kv))) l).

(** What may follow a value inside a document. *)
Definition delim (s : string) : Prop :=
  match s with
  | EmptyString => True
  | String c _ => c = ","%char \/ c = "]"%char \/ c = "}"%char
  end.

Definition no_digit_start (s : string) : Prop :=
  match s with
  | EmptyString => True
  | String c _ => digit_of c = None
  end.

Definition num_start (c : ascii) : bool :=
  Ascii.eqb c "-" || match digit_of c with Some _ => true | None => false end.

Section json_ind'.
Variable P : json -> Prop.
Hypothesis HNull : P JNull.
Hypothesis HBool : forall b, P (JBool b).
Hypothesis HInt : forall z, P (JInt z).
Hypothesis HFloat : forall m e, P (JFloat m e).
Hypothesis HString : forall s, P (JString s).
Hypothesis HArray : forall l, Forall P l -> P (JArray l).
Hypothesis HObject : forall l, Forall (fun kv => P (snd kv)) l -> P (JObject l).

Fixpoint json_ind' (j : json) : P j :=
  match j with
  | JNull => HNull
  | JBool b => HBool b
  | JInt z => HInt z
  | JFloat m e => HFloat m e
  | JString s => HString s
  | JArray l =>
      HArray l ((fix go (l : list json) : Forall P l :=
                   match l with
                   | [] => Forall_nil _
                   | x :: r => Forall_cons x (json_ind' x) (go r)
                   end) l)
  | JObject l =>
      HObject l ((fix go (l : list (string * json)) : Forall (fun kv => P (snd kv)) l :=
                    match l with
                    | [] => Forall_nil _
                    | kv :: r =>
                        Forall_cons kv
                          (match kv as p return P (snd p) with (k, x) => json_ind' x end)
                          (go r)
                    end) l)
  end.
End json_ind'.

(** ** Notions the statements use *)

(** The clock text [strftime("%b %d %T")] renders. *)
Definition clock_text (now : Tm) : string :=
  month_abbrev (tm_mon now) ++ " " ++ pad2 (tm_mday now) ++ " " ++
  pad2 (tm_hour now) ++ ":" ++ pad2 (tm_min now) ++ ":" ++ pad2 (tm_sec now).

(** The RFC 3164 header written before the body: priority 14 (user-level,
    informational), the clock, the hostname when there is one, and the tag
    [vector[pid]]. *)
Definition syslog_prefix (host : option string) (pid : Z) (now : Tm) : string :=
  "<14>" ++ clock_text now ++ " " ++
  match host with Some h => h ++ " " | None => EmptyString end ++
  "vector[" ++ Z_to_string (u32_as_i32 pid) ++ "]: ".

(** A whole wire record: header, body and the newline delimiter. *)
Definition syslog_line (host : option string) (pid : Z) (now : Tm) (body : string) : string :=
  syslog_prefix host pid now ++ body ++ String newline EmptyString.

(** The hostname [encode_event] takes from an event. *)
Definition host_of (log : LogEvent) : option string :=
  option_map to_string_lossy (get host_key log).

(** The event left for the body: host field removed, then the rules. *)
Definition filtered (enc : EncodingConfig) (log : LogEvent) : LogEvent :=
  apply_except_fields enc (apply_only_fields enc (snd (remove host_key log))).

(** The Text codec's body. *)
Definition text_body (log : LogEvent) : string :=
  match get message_key log with
  | Some v => to_string_lossy v
  | None => EmptyString
  end.

Fixpoint count_char (c : ascii) (s : string) : nat :=
  match s with
  | EmptyString => O
  | String d r => (if Ascii.eqb c d then 1 else 0) + count_char c r
  end.

(** Whether the encoding rules keep a field of the given name. *)
Definition field_kept (enc : EncodingConfig) (k : string) : bool :=
  match only_fields enc with Some only => mem k only | None => true end &&
  match except_fields enc with Some ex => negb (mem k ex) | None => true end.

(** ** Concrete inputs *)

Definition now0 : Tm := mk_tm Oct 6 9 5 30.

Definition json_plain : EncodingConfig := mk_encoding Json None None.
Definition text_plain : EncodingConfig := mk_encoding Text None None.

(** The encoding of the source's test [encode_event_apply_rules]. *)
Definition json_except_magic : EncodingConfig := mk_encoding Json None (Some ["magic"]).
Definition text_except_message : EncodingConfig := mk_encoding Text None (Some ["message"]).

(** [Event::from("vector")] with [magic = "key"] inserted. *)
Definition vector_magic : LogEvent :=
  mk_log [("magic", Bytes "key"); ("message", Bytes "vector")].

Definition hello_log : LogEvent := mk_log [("message", Bytes "hello")].
Definition nan_log : LogEvent := mk_log [("message", Bytes "vector"); ("x", Float NaN)].
Definition null_log : LogEvent := mk_log [("message", Bytes "vector"); ("x", Null)].
Definition two_lines_log : LogEvent :=
  mk_log [("message", Bytes ("a" ++ String newline "b"))].
Definition with_host_log : LogEvent :=
  mk_log [("host", Bytes "h1"); ("message", Bytes "vector")].

Definition endpoint_cfg (u : Uri) : PapertrailConfig :=
  mk_config u json_plain None.

(** An allow-list that keeps no field. *)
Definition json_keep_none : EncodingConfig := mk_encoding Json (Some []) None.

(** The largest [u32] process id. *)
Definition pid_max : Z := 4294967295.

(** ** Lemmas: strings and decimal numbers *)

Ltac ascii_cases c := destruct c as [[] [] [] [] [] [] [] []].

Lemma append_assoc_s (a b c : string) : (a ++ b) ++ c = a ++ (b ++ c).
Proof. induction a as [|x a IH]; simpl; [reflexivity | now rewrite IH]. Qed.

Lemma append_empty_r (a : string) : a ++ EmptyString = a.
Proof. induction a as [|x a IH]; simpl; [reflexivity | now rewrite IH]. Qed.

Lemma length_append_s (a b : string) :
  String.length (a ++ b) = String.length a + String.length b.
Proof. induction a as [|x a IH]; simpl; [reflexivity | now rewrite IH]. Qed.

Lemma render_json_JArray l : render_json (JArray l) = "[" ++ render_elems l ++ "]".
Proof. reflexivity. Qed.

Lemma render_json_JObject l : render_json (JObject l) = "{" ++ render_members l ++ "}".
Proof. reflexivity. Qed.

Lemma parse_digits_uint d rest :
  no_digit_start rest -> parse_digits (uint_to_string d ++ rest) = (d, rest).
Proof.
  intros H; induction d; simpl; try (rewrite IHd; reflexivity).
  destruct rest as [|c r]; simpl in *; [reflexivity | now rewrite H].
Qed.

Lemma N_to_uint_nonnil n : N.to_uint n <> Decimal.Nil.
Proof.
  destruct n as [|p]; simpl; [discriminate|].
  apply DecimalPos.Unsigned.to_uint_nonnil.
Qed.

Lemma uint_first n rest : exists c t,
  uint_to_string (N.to_uint n) ++ rest = String c t /\ digit_of c <> None.
Proof.
  pose proof (N_to_uint_nonnil n) as H.
  destruct (N.to_uint n); [congruence| ..]; simpl; eexists _, _; split;
    try reflexivity; discriminate.
Qed.

Lemma parse_unsigned_N n rest :
  no_digit_start rest ->
  parse_unsigned (uint_to_string (N.to_uint n) ++ rest) = Some (Z.of_N n, rest).
Proof.
  intros H; unfold parse_unsigned; rewrite parse_digits_uint by exact H.
  pose proof (N_to_uint_nonnil n) as Hn.
  pose proof (DecimalN.Unsigned.of_to n) as Hof.
  destruct (N.to_uint n); [congruence| ..]; rewrite Hof; reflexivity.
Qed.

Lemma digit_not_minus c : digit_of c <> None -> Ascii.eqb c "-" = false.
Proof. ascii_cases c; cbv; congruence. Qed.

Lemma parse_int_Z z rest :
  no_digit_start rest -> parse_int (Z_to_string z ++ rest) = Some (z, rest).
Proof.
  intros H; destruct z as [|p|p];
    [change (Z_to_string 0) with (uint_to_string (N.to_uint (Z.to_N 0)))
    |change (Z_to_string (Zpos p)) with (uint_to_string (N.to_uint (Z.to_N (Zpos p))))|].
  1,2: match goal with |- context [uint_to_string (N.to_uint ?n)] =>
         destruct (uint_first n rest) as (c & t & Ht & Hc);
         rewrite Ht; unfold parse_int; rewrite (digit_not_minus c Hc), <- Ht;
         rewrite parse_unsigned_N by exact H; reflexivity
       end.
  - change (Z_to_string (Zneg p) ++ rest)
      with (String "-" (uint_to_string (N.to_uint (Npos p)) ++ rest)).
    unfold parse_int; rewrite Ascii.eqb_refl.
    rewrite parse_unsigned_N by exact H; reflexivity.
Qed.

Lemma Z_to_string_first z rest : exists c t,
  Z_to_string z ++ rest = String c t /\ num_start c = true.
Proof.
  destruct z as [|p|p]; unfold Z_to_string.
  - destruct (uint_first (Z.to_N 0) rest) as (c & t & Ht & Hc).
    exists c, t; split; [exact Ht|]; unfold num_start.
    destruct (digit_of c); [apply orb_true_r | congruence].
  - destruct (uint_first (Z.to_N (Zpos p)) rest) as (c & t & Ht & Hc).
    exists c, t; split; [exact Ht|]; unfold num_start.
    destruct (digit_of c); [apply orb_true_r | congruence].
  - simpl; eexists _, _; split; reflexivity.
Qed.

Lemma parse_escape_char c t :
  parse_string_body (escape_char c ++ t) = cons_fst c (parse_string_body t).
Proof. ascii_cases c; reflexivity. Qed.

Lemma parse_escape_string s rest :
  parse_string_body (escape_string s ++ String quote rest) = Some (s, rest).
Proof.
  induction s as [|c s IH]; [reflexivity|].
  simpl escape_string; rewrite append_assoc_s, parse_escape_char, IH; reflexivity.
Qed.

Lemma parse_quoted s rest :
  parse_string_body (escape_string s ++ String quote EmptyString ++ rest) = Some (s, rest).
Proof. apply parse_escape_string. Qed.

Lemma parse_value_num f c r :
  num_start c = true -> parse_value (S f) (String c r) = parse_number (String c r).
Proof. ascii_cases c; cbv [num_start digit_of Ascii.eqb]; simpl; congruence. Qed.

Lemma num_start_not_close c :
  num_start c = true -> Ascii.eqb c "]" = false /\ Ascii.eqb c "}" = false.
Proof. ascii_cases c; cbv; try discriminate; split; reflexivity. Qed.

Lemma delim_no_digit rest : delim rest -> no_digit_start rest.
Proof. destruct rest as [|c r]; simpl; [trivial|]. intros [->|[->| ->]]; reflexivity. Qed.

Lemma render_first j t : exists c u,
  render_json j ++ t = String c u /\ Ascii.eqb c "]" = false /\ Ascii.eqb c "}" = false.
Proof.
  destruct j as [| [] | z | m e | s | l | l];
    try (eexists _, _; split; [reflexivity | split; reflexivity]).
  - destruct (Z_to_string_first z t) as (c & u & Ht & Hc).
    exists c, u; split; [exact Ht | apply num_start_not_close, Hc].
  - change (render_json (JFloat m e)) with (Z_to_string m ++ "e" ++ Z_to_string e).
    rewrite append_assoc_s.
    destruct (Z_to_string_first m (("e" ++ Z_to_string e) ++ t)) as (c & u & Ht & Hc).
    exists c, u; split; [exact Ht | apply num_start_not_close, Hc].
Qed.

Lemma elems_first l t : l <> [] -> exists c u,
  render_elems l ++ t = String c u /\ Ascii.eqb c "]" = false.
Proof.
  intros Hl; destruct l as [|x r]; [congruence|].
  simpl render_elems; rewrite append_assoc_s.
  destruct (render_first x ((match r with [] => EmptyString | _ => "," ++ render_elems r end) ++ t))
    as (c & u & H1 & H2 & _).
  exists c, u; split; assumption.
Qed.

Lemma members_first l t : l <> [] -> exists u,
  render_members l ++ t = String quote u.
Proof.
  intros Hl; destruct l as [|[k x] r]; [congruence|].
  eexists; reflexivity.
Qed.

Lemma parse_value_quote f r :
  parse_value (S f) (String quote r) =
  match parse_string_body r with
  | Some (str, r') => Some (JString str, r')
  | None => None
  end.
Proof. reflexivity. Qed.

Lemma parse_value_bracket f d r :
  Ascii.eqb d "]" = false ->
  parse_value (S f) (String "[" (String d r)) =
  match parse_elems f (String d r) with
  | Some (l, r') => Some (JArray l, r')
  | None => None
  end.
Proof. intros H; simpl; rewrite H; reflexivity. Qed.

Lemma parse_value_brace f r :
  parse_value (S f) (String "{" (String quote r)) =
  match parse_members f (String quote r) with
  | Some (l, r') => Some (JObject l, r')
  | None => None
  end.
Proof. reflexivity. Qed.

Lemma parse_elems_S f s :
  parse_elems (S f) s =
  match parse_value f s with
  | Some (v, String c r) =>
      if Ascii.eqb c "," then
        match parse_elems f r with
        | Some (l, r') => Some (v :: l, r')
        | None => None
        end
      else if Ascii.eqb c "]" then Some ([v], r)
      else None
  | _ => None
  end.
Proof. reflexivity. Qed.

Lemma parse_members_S f r :
  parse_members (S f) (String quote r) =
  match parse_string_body r with
  | Some (k, String d r1) =>
      if Ascii.eqb d ":" then
        match parse_value f r1 with
        | Some (v, String c2 r2) =>
            if Ascii.eqb c2 "," then
              match parse_members f r2 with
              | Some (l, r3) => Some ((k, v) :: l, r3)
              | None => None
              end
            else if Ascii.eqb c2 "}" then Some ([(k, v)], r2)
            else None
        | _ => None
        end
      else None
  | _ => None
  end.
Proof. reflexivity. Qed.

Lemma json_size_JArray l : json_size (JArray l) = S (elems_size l).
Proof. reflexivity. Qed.

Lemma json_size_JObject l : json_size (JObject l) = S (members_size l).
Proof. reflexivity. Qed.

Lemma parse_render_fuel fuel :
  (forall j rest, json_size j < fuel -> delim rest ->
     parse_value fuel (render_json j ++ rest) = Some (j, rest)) /\
  (forall l rest, l <> [] -> elems_size l < fuel ->
     parse_elems fuel (render_elems l ++ "]" ++ rest) = Some (l, rest)) /\
  (forall l rest, l <> [] -> members_size l < fuel ->
     parse_members fuel (render_members l ++ "}" ++ rest) = Some (l, rest)).
Proof.
  induction fuel as [|f (IHv & IHe & IHm)].
  { split; [|split]; intros; lia. }
  split; [|split].
  - intros j rest Hs Hd.
    destruct j as [| [] | z | m e | s | l | l]; try reflexivity.
    + change (render_json (JInt z)) with (Z_to_string z).
      destruct (Z_to_string_first z rest) as (c & t & Ht & Hc).
      rewrite Ht, (parse_value_num f c t Hc), <- Ht; unfold parse_number.
      rewrite parse_int_Z by (apply delim_no_digit, Hd).
      destruct rest as [|c' r']; [reflexivity|].
      destruct Hd as [->|[->| ->]]; reflexivity.
    + change (render_json (JFloat m e)) with (Z_to_string m ++ "e" ++ Z_to_string e).
      rewrite append_assoc_s.
      destruct (Z_to_string_first m (("e" ++ Z_to_string e) ++ rest)) as (c & t & Ht & Hc).
      rewrite Ht, (parse_value_num f c t Hc), <- Ht; unfold parse_number.
      rewrite parse_int_Z by reflexivity.
      change (("e" ++ Z_to_string e) ++ rest) with (String "e" (Z_to_string e ++ rest)).
      cbv iota beta; rewrite Ascii.eqb_refl.
      rewrite parse_int_Z by (apply delim_no_digit, Hd); reflexivity.
    + change (render_json (JString s) ++ rest)
        with (String quote ((escape_string s ++ String quote EmptyString) ++ rest)).
      rewrite parse_value_quote, append_assoc_s, parse_quoted; reflexivity.
    + destruct l as [|x l]; [reflexivity|].
      rewrite render_json_JArray, !append_assoc_s.
      destruct (elems_first (x :: l) ("]" ++ rest)) as (c & u & Hu & Hc); [discriminate|].
      change ("[" ++ ?y) with (String "[" y); rewrite Hu, parse_value_bracket by exact Hc.
      rewrite <- Hu, IHe; [reflexivity | discriminate |].
      rewrite json_size_JArray in Hs; lia.
    + destruct l as [|[k x] l]; [reflexivity|].
      rewrite render_json_JObject, !append_assoc_s.
      change ("{" ++ ?y) with (String "{" y).
      destruct (members_first ((k, x) :: l) ("}" ++ rest)) as (u & Hu); [discriminate|].
      rewrite Hu, parse_value_brace, <- Hu, IHm; [reflexivity | discriminate |].
      rewrite json_size_JObject in Hs; lia.
  - intros l rest Hne Hs.
    destruct l as [|x r]; [congruence|].
    unfold elems_size in Hs; simpl in Hs.
    rewrite parse_elems_S.
    destruct r as [|y r].
    + change (render_elems [x]) with (render_json x ++ EmptyString).
      rewrite append_empty_r, IHv; [reflexivity | simpl in Hs; lia | simpl; auto].
    + change (render_elems (x :: y :: r)) with (render_json x ++ "," ++ render_elems (y :: r)).
      rewrite append_assoc_s, IHv; [| lia | simpl; auto].
      change (("," ++ ?a) ++ ?b) with (String "," (a ++ b)).
      cbv iota beta; rewrite Ascii.eqb_refl.
      rewrite IHe; [reflexivity | discriminate | unfold elems_size; simpl in Hs |- *; lia].
  - intros l rest Hne Hs.
    destruct l as [|[k x] r]; [congruence|].
    unfold members_size in Hs; simpl in Hs.
    change (render_members ((k, x) :: r))
      with (quoted k ++ ":" ++ render_json x ++
            match r with [] => EmptyString | _ => "," ++ render_members r end).
    unfold quoted; rewrite !append_assoc_s.
    change (String quote ?a ++ ?b) with (String quote (a ++ b)).
    rewrite parse_members_S, !append_assoc_s.
    change (String quote EmptyString ++ ?b) with (String quote b).
    rewrite parse_escape_string.
    change (":" ++ ?b) with (String ":" b).
    cbv iota beta; rewrite Ascii.eqb_refl.
    destruct r as [|[k' y] r].
    + rewrite IHv; [reflexivity | simpl in Hs; lia | simpl; auto].
    + rewrite IHv; [| lia | simpl; auto].
      change (("," ++ ?a) ++ ?b) with (String "," (a ++ b)).
      cbv iota beta; rewrite Ascii.eqb_refl.
      rewrite IHm; [reflexivity | discriminate | unfold members_size; simpl in Hs |- *; lia].
Qed.

Lemma quoted_length k : 2 <= String.length (quoted k).
Proof. unfold quoted; simpl; rewrite length_append_s; simpl; lia. Qed.

Lemma size_le_length j : json_size j <= String.length (render_json j).
Proof.
  induction j as [| b | z | m e | s | l IH | l IH] using json_ind';
    try (simpl; lia).
  - rewrite json_size_JArray, render_json_JArray, length_append_s; simpl.
    rewrite length_append_s; simpl.
    enough (elems_size l <= S (String.length (render_elems l))) by lia.
    unfold elems_size.
    induction IH as [|x r Hx Hr IHr]; [simpl; lia|].
    simpl; rewrite length_append_s.
    destruct r as [|y r]; simpl in *; [lia|].
    rewrite length_append_s in IHr |- *; simpl in *; lia.
  - rewrite json_size_JObject, render_json_JObject, length_append_s; simpl.
    rewrite length_append_s; simpl.
    enough (members_size l <= S (String.length (render_members l))) by lia.
    unfold members_size.
    induction IH as [|[k x] r Hx Hr IHr]; [simpl; lia|].
    simpl in *.
    pose proof (quoted_length k).
    rewrite !length_append_s; simpl.
    destruct r as [|y r]; simpl in *; [rewrite append_empty_r; lia|].
    rewrite length_append_s; simpl; lia.
Qed.

(** serde_json's compact text reads back as the value written. *)
Lemma parse_render j : parse_json (render_json j) = Some j.
Proof.
  unfold parse_json.
  destruct (parse_render_fuel (S (String.length (render_json j)))) as (Hv & _).
  rewrite <- (append_empty_r (render_json j)) at 2.
  rewrite Hv; [reflexivity | pose proof (size_le_length j); lia | exact I].
Qed.

(** ** Lemmas: the formatter and the encoder *)

Lemma strftime_clock now : strftime "%b %d %T" now = Ok (clock_text now).
Proof.
  simpl; unfold clock_text; rewrite append_empty_r; reflexivity.
Qed.

Lemma format_vec h pid now msg :
  format {| facility := LOG_USER; hostname := h; process := "vector";
            pid := u32_as_i32 pid |} EmptyString LOG_INFO msg now =
  Ret (Ok (syslog_prefix h pid now ++ msg)).
Proof.
  unfold format; rewrite strftime_clock; simpl bind.
  destruct h as [h|]; simpl hostname; unfold syslog_prefix;
    rewrite ?append_assoc_s; reflexivity.
Qed.

Lemma encode_event_with_Log ser log pid enc now :
  encode_event_with ser (Log log) pid enc now =
  match codec enc with
  | Json =>
      match ser (filtered enc log) with
      | Ok body => Ret (Some (syslog_line (host_of log) pid now body))
      | Err _ => Panic "called `Result::unwrap()` on an `Err` value"
      end
  | Text => Ret (Some (syslog_line (host_of log) pid now (text_body (filtered enc log))))
  end.
Proof.
  unfold encode_event_with; cbn [as_log bind remove apply_rules fst snd].
  unfold host_of, filtered, text_body, syslog_line, remove; cbn [fst snd].
  destruct (codec enc); cbn [bind unwrap].
  - destruct (ser _); cbn [bind unwrap]; [|reflexivity].
    rewrite format_vec; cbn [bind unwrap]; rewrite append_assoc_s; reflexivity.
  - rewrite format_vec; cbn [bind unwrap]; rewrite append_assoc_s; reflexivity.
Qed.

(** The encoder as the sink runs it: the body is serde_json's text of the
    filtered event, or its message. *)
Lemma encode_event_Log log pid enc now :
  encode_event (Log log) pid enc now =
  Ret (Some (syslog_line (host_of log) pid now
               match codec enc with
               | Json => render_json (json_of_log (filtered enc log))
               | Text => text_body (filtered enc log)
               end)).
Proof.
  unfold encode_event; rewrite encode_event_with_Log.
  destruct (codec enc); reflexivity.
Qed.

(** ** Lemmas: fields after the rules *)

Lemma mem_In k ks : mem k ks = true <-> In k ks.
Proof.
  unfold mem; rewrite existsb_exists; split.
  - intros (x & Hx & Heq); apply String.eqb_eq in Heq; now subst.
  - intros H; exists k; split; [exact H | apply String.eqb_refl].
Qed.

Lemma filtered_In enc log kv :
  In kv (fields (filtered enc log)) ->
  In kv (fields log) /\ fst kv <> host_key /\
  (forall ex, except_fields enc = Some ex -> ~ In (fst kv) ex) /\
  (forall only, only_fields enc = Some only -> In (fst kv) only).
Proof.
  unfold filtered, apply_except_fields, apply_only_fields, remove; simpl.
  destruct (only_fields enc) as [only|], (except_fields enc) as [ex|]; simpl;
    rewrite ?filter_In; intros H; repeat split; intros;
    repeat match goal with
    | H : _ /\ _ |- _ => destruct H
    | H : Some _ = Some _ |- _ => injection H as <-
    | H : None = Some _ |- _ => discriminate H
    | H : negb (String.eqb _ _) = true |- _ =>
        apply negb_true_iff, String.eqb_neq in H
    | H : mem _ _ = true |- _ => apply mem_In in H
    end; auto.
  all: rewrite <- mem_In; match goal with H : negb (mem _ _) = true |- _ =>
         apply negb_true_iff in H; rewrite H; discriminate end.
Qed.

Lemma get_None_not_In k log : ~ In k (map fst (fields log)) -> get k log = None.
Proof.
  intros H; unfold get.
  destruct (find (fun kv => String.eqb (fst kv) k) (fields log)) as [kv|] eqn:E;
    [|reflexivity].
  apply find_some in E as (Hin & Heq); apply String.eqb_eq in Heq.
  exfalso; apply H, in_map_iff; exists kv; auto.
Qed.

Lemma json_of_log_keys log :
  json_of_log log = JObject (map (fun '(k, x) => (k, to_json x)) (fields log)) /\
  map fst (map (fun '(k, x) => (k, to_json x)) (fields log)) = map fst (fields log).
Proof.
  split; [reflexivity|].
  rewrite map_map; apply map_ext; intros [k x]; reflexivity.
Qed.

(** ** Lemmas: newlines in the output *)

Lemma count_char_app c a b : count_char c (a ++ b) = count_char c a + count_char c b.
Proof. induction a as [|x a IH]; simpl; [reflexivity | rewrite IH; lia]. Qed.

Lemma nl_uint d : count_char newline (uint_to_string d) = 0.
Proof. induction d; simpl; auto. Qed.

Lemma nl_Z z : count_char newline (Z_to_string z) = 0.
Proof. destruct z; simpl; try apply nl_uint; reflexivity. Qed.

Lemma nl_pad2 n : count_char newline (pad2 n) = 0.
Proof. unfold pad2; destruct (n <? 10)%nat; simpl; apply nl_Z. Qed.

Lemma nl_clock now : count_char newline (clock_text now) = 0.
Proof.
  unfold clock_text; rewrite !count_char_app, !nl_pad2.
  destruct (tm_mon now); reflexivity.
Qed.

Lemma nl_escape_char c : count_char newline (escape_char c) = 0.
Proof. ascii_cases c; reflexivity. Qed.

Lemma nl_quoted s : count_char newline (quoted s) = 0.
Proof.
  unfold quoted; simpl; rewrite count_char_app; simpl.
  induction s as [|c s IH]; simpl; [reflexivity|].
  rewrite count_char_app, nl_escape_char; exact IH.
Qed.

(** serde_json's compact text has no line break: a newline inside a string
    is escaped. *)
Lemma nl_render j : count_char newline (render_json j) = 0.
Proof.
  induction j as [| [] | z | m e | s | l IH | l IH] using json_ind';
    try reflexivity.
  - apply nl_Z.
  - change (render_json (JFloat m e)) with (Z_to_string m ++ "e" ++ Z_to_string e).
    rewrite !count_char_app, !nl_Z; reflexivity.
  - apply nl_quoted.
  - rewrite render_json_JArray, !count_char_app; simpl.
    enough (count_char newline (render_elems l) = 0) as -> by reflexivity.
    induction IH as [|x r Hx Hr IHr]; [reflexivity|].
    simpl; rewrite count_char_app, Hx.
    destruct r; [reflexivity|]; simpl; exact IHr.
  - rewrite render_json_JObject, !count_char_app; simpl.
    enough (count_char newline (render_members l) = 0) as -> by reflexivity.
    induction IH as [|[k x] r Hx Hr IHr]; [reflexivity|].
    cbn [render_members]; simpl in Hx; rewrite !count_char_app, nl_quoted, Hx; simpl.
    destruct r; [reflexivity|]; simpl; exact IHr.
Qed.

Lemma nl_prefix host pid now :
  count_char newline (syslog_prefix host pid now) =
  match host with Some h => count_char newline h | None => 0 end.
Proof.
  unfold syslog_prefix; destruct host as [h|];
    rewrite !count_char_app, nl_clock, nl_Z; simpl; lia.
Qed.

Lemma get_filter (p : string -> bool) k l :
  get k (mk_log (filter (fun kv => p (fst kv)) l)) =
  if p k then get k (mk_log l) else None.
Proof.
  unfold get; simpl; induction l as [|[k' v] l IH]; simpl.
  - destruct (p k); reflexivity.
  - destruct (String.eqb k' k) eqn:E.
    + apply String.eqb_eq in E; subst k'.
      destruct (p k); simpl; [rewrite String.eqb_refl; reflexivity | exact IH].
    + destruct (p k') eqn:P; simpl; rewrite ?E; exact IH.
Qed.

Lemma get_filtered enc log k :
  k <> host_key ->
  get k (filtered enc log) = if field_kept enc k then get k log else None.
Proof.
  intros Hk; apply String.eqb_neq in Hk.
  unfold filtered, apply_except_fields, apply_only_fields, remove, field_kept.
  simpl snd.
  destruct (only_fields enc) as [only|], (except_fields enc) as [ex|];
    repeat first [ progress cbn [fields]
                 | rewrite (get_filter (fun k => negb (mem k ex)))
                 | rewrite (get_filter (fun k => mem k only))
                 | rewrite (get_filter (fun k => negb (String.eqb k host_key))) ];
    rewrite Hk; simpl;
    repeat match goal with |- context [mem ?a ?b] => destruct (mem a b) end;
    reflexivity.
Qed.

Lemma json_body_keys enc log :
  parse_json (render_json (json_of_log (filtered enc log))) =
    Some (JObject (map (fun '(k, x) => (k, to_json x)) (fields (filtered enc log)))) /\
  map fst (map (fun '(k, x) => (k, to_json x)) (fields (filtered enc log))) =
    map fst (fields (filtered enc log)).
Proof.
  destruct (json_of_log_keys (filtered enc log)) as [H1 H2].
  rewrite parse_render, H1; auto.
Qed.

Lemma In_keys_filtered enc log k :
  In k (map fst (fields (filtered enc log))) ->
  k <> host_key /\ (forall ex, except_fields enc = Some ex -> ~ In k ex).
Proof.
  intros Hk; apply in_map_iff in Hk as (kv & <- & Hin).
  apply filtered_In in Hin as (_ & H1 & H2 & _); auto.
Qed.

Example build_example_address :
  match build (endpoint_cfg (mk_uri (Some "logs.example.com") (Some 12345%Z))) 0 with
  | Ok sink => address sink = "logs.example.com:12345"
  | Err _ => False
  end.
Proof. reflexivity. Qed.

(** * The claims *)

(** C1 (corrected). Under the Json codec the encoder never returns a
    recoverable error: serde_json writes non-finite numbers as [null], so
    the event always encodes to [Some] bytes, whose body is the JSON text of
    the filtered event; were the serializer to fail, the [unwrap] would
    panic rather than hand an error back to the caller. *)
Theorem json_encoding_never_fails log pid enc now :
  codec enc = Json ->
  encode_event (Log log) pid enc now =
    Ret (Some (syslog_line (host_of log) pid now
                 (render_json (json_of_log (filtered enc log))))) /\
  (forall ser e, ser (filtered enc log) = Err e ->
     encode_event_with ser (Log log) pid enc now =
       Panic "called `Result::unwrap()` on an `Err` value").
Proof.
  intros Hc; split.
  - rewrite encode_event_Log, Hc; reflexivity.
  - intros ser e He; rewrite encode_event_with_Log, Hc, He; reflexivity.
Qed.

Lemma json_encoding_never_fails_witness :
  codec json_plain = Json /\
  exists out, encode_event (Log nan_log) 0 json_plain now0 = Ret (Some out).
Proof.
  split; [reflexivity|].
  eexists; exact (proj1 (json_encoding_never_fails nan_log 0 json_plain now0 eq_refl)).
Defined.

(** C1 counterexample: an event with a NaN field encodes under Json to
    [Some] bytes, the NaN written as [null]; no error is returned. *)
Lemma nan_event_encodes :
  encode_event (Log nan_log) 0 json_plain now0 =
  Ret (Some (syslog_line None 0 now0
               (render_json (JObject [("message", JString "vector"); ("x", JNull)])))).
Proof. vm_compute; reflexivity. Qed.

(** C2. The host field is taken out of the event before the rules and the
    body: the output's hostname is the display string of the host field
    (none when the event has no host field), the event the codec sees has
    no host field, and the JSON body has no host key. *)
Theorem host_field_removed log pid enc now :
  (exists body,
     encode_event (Log log) pid enc now =
       Ret (Some (syslog_line (option_map to_string_lossy (get host_key log)) pid now body)) /\
     (codec enc = Json ->
        exists kvs, parse_json body = Some (JObject kvs) /\ ~ In host_key (map fst kvs)) /\
     (codec enc = Text -> body = text_body (filtered enc log))) /\
  (forall kv, In kv (fields (filtered enc log)) -> fst kv <> host_key).
Proof.
  split.
  - rewrite encode_event_Log; unfold host_of.
    eexists; split; [reflexivity|].
    destruct (codec enc); split; intros Hc; try discriminate Hc; [|reflexivity].
    destruct (json_body_keys enc log) as [Hp Hk].
    eexists; split; [exact Hp|]; rewrite Hk.
    intros Hin; apply In_keys_filtered in Hin as [H _]; apply H; reflexivity.
  - intros kv Hin; apply filtered_In in Hin; tauto.
Qed.

(** C3. With an [except_fields] list, the rules run before the body is
    made: no excluded name is a key of the JSON body, and under Text the body
    is read from an event holding none of the excluded fields (empty when the
    message field is excluded). *)
Theorem except_fields_absent log pid enc now ex :
  except_fields enc = Some ex ->
  exists body,
    encode_event (Log log) pid enc now =
      Ret (Some (syslog_line (host_of log) pid now body)) /\
    (codec enc = Json ->
       exists kvs, parse_json body = Some (JObject kvs) /\
                   forall k, In k ex -> ~ In k (map fst kvs)) /\
    (codec enc = Text ->
       body = text_body (filtered enc log) /\
       (forall kv, In kv (fields (filtered enc log)) -> ~ In (fst kv) ex) /\
       (In message_key ex -> body = EmptyString)).
Proof.
  intros Hex; rewrite encode_event_Log.
  eexists; split; [reflexivity|].
  destruct (codec enc); split; intros Hc; try discriminate Hc.
  - destruct (json_body_keys enc log) as [Hp Hk].
    eexists; split; [exact Hp|]; rewrite Hk.
    intros k Hk_ex Hin; apply In_keys_filtered in Hin as [_ H]; exact (H ex Hex Hk_ex).
  - split; [reflexivity|]; split.
    + intros kv Hin; apply filtered_In in Hin as (_ & _ & H & _); exact (H ex Hex).
    + intros Hm; unfold text_body.
      rewrite get_filtered by discriminate.
      unfold field_kept; rewrite Hex.
      apply mem_In in Hm; rewrite Hm, andb_false_r; reflexivity.
Qed.

Lemma except_fields_absent_witness :
  except_fields json_except_magic = Some ["magic"] /\
  exists body,
    encode_event (Log vector_magic) 0 json_except_magic now0 =
      Ret (Some (syslog_line (host_of vector_magic) 0 now0 body)) /\
    exists kvs, parse_json body = Some (JObject kvs) /\ ~ In "magic" (map fst kvs).
Proof.
  split; [reflexivity|].
  destruct (except_fields_absent vector_magic 0 json_except_magic now0 ["magic"] eq_refl)
    as (body & He & Hj & _).
  exists body; split; [exact He|].
  destruct (Hj eq_refl) as (kvs & Hp & Hk).
  exists kvs; split; [exact Hp | apply Hk; left; reflexivity].
Defined.

(** C4 (corrected). Under Json the body parses back to the JSON image of
    the event's fields less the host field and the fields the rules drop:
    the keys and their order are the event's, strings, integers, booleans,
    finite floats, maps and arrays come back as such, timestamps and bytes
    as strings, and NaN and the infinities as [null]. *)
Theorem json_body_round_trip log pid enc now :
  codec enc = Json ->
  exists body,
    encode_event (Log log) pid enc now =
      Ret (Some (syslog_line (host_of log) pid now body)) /\
    parse_json body = Some (json_of_log (filtered enc log)).
Proof.
  intros Hc; rewrite encode_event_Log, Hc.
  eexists; split; [reflexivity | apply parse_render].
Qed.

Lemma json_body_round_trip_witness :
  codec json_except_magic = Json /\
  exists body,
    encode_event (Log vector_magic) 0 json_except_magic now0 =
      Ret (Some (syslog_line None 0 now0 body)) /\
    parse_json body = Some (JObject [("message", JString "vector")]).
Proof.
  split; [reflexivity|].
  exact (json_body_round_trip vector_magic 0 json_except_magic now0 eq_refl).
Defined.

(** C4 counterexample: two events whose fields differ (a NaN and a null)
    have the same encoding, so the parsed body cannot be the field map of
    both. *)
Lemma nan_null_same_output :
  fields nan_log <> fields null_log /\
  encode_event (Log nan_log) 0 json_plain now0 = encode_event (Log null_log) 0 json_plain now0.
Proof. split; [discriminate | vm_compute; reflexivity]. Qed.

(** C5 (corrected). Every log event encodes to a non-empty record ending in
    a newline. Its newlines are that delimiter, those of the hostname and,
    under Text, those of the message body; the JSON body has none. *)
Theorem one_record_per_event log pid enc now :
  exists out,
    encode_event (Log log) pid enc now = Ret (Some out) /\
    out <> EmptyString /\
    (exists pre, out = pre ++ String newline EmptyString) /\
    count_char newline out =
      1 + match host_of log with Some h => count_char newline h | None => 0 end +
      match codec enc with
      | Json => 0
      | Text => count_char newline (text_body (filtered enc log))
      end.
Proof.
  rewrite encode_event_Log; eexists; split; [reflexivity|].
  unfold syslog_line; split; [|split].
  - unfold syslog_prefix; discriminate.
  - eexists; rewrite append_assoc_s; reflexivity.
  - rewrite !count_char_app, nl_prefix.
    change (count_char newline (String newline EmptyString)) with 1.
    destruct (codec enc); rewrite ?nl_render; lia.
Qed.

(** C5 counterexample: a Text message holding a line break gives a record
    with two newline bytes. *)
Lemma text_message_newline :
  exists out,
    encode_event (Log two_lines_log) 0 text_plain now0 = Ret (Some out) /\
    count_char newline out = 2.
Proof. eexists; split; vm_compute; reflexivity. Qed.

(** C6 (corrected). Under Text the body is the display string of the message
    field when the rules keep that field and the event has it, and empty
    otherwise; no other field affects it. *)
Theorem text_body_message log pid enc now :
  codec enc = Text ->
  encode_event (Log log) pid enc now =
    Ret (Some (syslog_line (host_of log) pid now
                 (if field_kept enc message_key
                  then match get message_key log with
                       | Some v => to_string_lossy v
                       | None => EmptyString
                       end
                  else EmptyString))).
Proof.
  intros Hc; rewrite encode_event_Log, Hc; unfold text_body.
  rewrite get_filtered by discriminate.
  destruct (field_kept enc message_key); reflexivity.
Qed.

Lemma text_body_message_witness :
  codec text_plain = Text /\
  encode_event (Log hello_log) 0 text_plain now0 =
    Ret (Some (syslog_line None 0 now0 "hello")).
Proof.
  split; [reflexivity|].
  rewrite (text_body_message hello_log 0 text_plain now0 eq_refl); reflexivity.
Defined.

(** C6 counterexample: the message field is present and equal to "hello",
    but excluded by [except_fields]; the Text body is empty. *)
Lemma excluded_message_empty_body :
  get message_key hello_log = Some (Bytes "hello") /\
  encode_event (Log hello_log) 0 text_except_message now0 =
    Ret (Some (syslog_line None 0 now0 EmptyString)).
Proof. split; vm_compute; reflexivity. Qed.

(** C7 (corrected). [build] fails for a missing host whatever the port; it
    fails for a missing port only when there is a host; otherwise the
    address is [host:port]. *)
Theorem endpoint_resolution this pid :
  (build this pid = Err "A host is required for endpoint" <->
     uri_host (endpoint this) = None) /\
  (build this pid = Err "A port is required for endpoint" <->
     (exists h, uri_host (endpoint this) = Some h) /\ uri_port (endpoint this) = None) /\
  (forall h p, uri_host (endpoint this) = Some h -> uri_port (endpoint this) = Some p ->
     exists sink, build this pid = Ok sink /\ address sink = h ++ ":" ++ Z_to_string p).
Proof.
  unfold build.
  destruct (uri_host (endpoint this)) as [h|], (uri_port (endpoint this)) as [p|];
    repeat split; intros;
    repeat match goal with
    | H : exists _, _ |- _ => destruct H
    | H : _ /\ _ |- _ => destruct H
    | H : Some _ = Some _ |- _ => injection H as <-
    end;
    try discriminate; eauto.
  all: try (eexists; split; reflexivity).
Qed.

(** C7 counterexample: an endpoint with neither host nor port has no port,
    yet [build] reports the missing host. *)
Lemma no_host_no_port :
  uri_port (endpoint (endpoint_cfg (mk_uri None None))) = None /\
  build (endpoint_cfg (mk_uri None None)) 0 = Err "A host is required for endpoint".
Proof. split; reflexivity. Qed.

(** C8. The sink's TLS setting is the configured one when given, and
    [TlsConfig::enabled()] (TLS on, default trust settings) otherwise. *)
Theorem tls_resolution this pid sink :
  build this pid = Ok sink ->
  sink_tls sink = Some (match tls this with Some t => t | None => TlsConfig_enabled end) /\
  (forall t, tls this = Some t -> sink_tls sink = Some t) /\
  (tls this = None -> sink_tls sink = Some TlsConfig_enabled /\
                      tls_enabled TlsConfig_enabled = Some true).
Proof.
  unfold build; intros Hb.
  destruct (uri_host (endpoint this)), (uri_port (endpoint this)); try discriminate Hb.
  injection Hb as <-; simpl.
  split; [reflexivity|split].
  - intros t ->; reflexivity.
  - intros ->; split; reflexivity.
Qed.

Lemma tls_resolution_witness :
  exists sink,
    build (endpoint_cfg (mk_uri (Some "logs.example.com") (Some 12345%Z))) 0 = Ok sink /\
    sink_tls sink = Some TlsConfig_enabled.
Proof.
  eexists; split; [reflexivity|].
  refine (proj1 (proj2 (proj2 (tls_resolution
    (endpoint_cfg (mk_uri (Some "logs.example.com") (Some 12345%Z))) 0 _ _)) _));
    reflexivity.
Defined.

(** C9. The RFC 3164 formatter the encoder builds (user-level facility,
    informational severity, optional hostname, process "vector", the pid)
    writes into the empty buffer without error for every message. *)
Theorem format_never_fails host pid now message :
  exists s,
    format {| facility := LOG_USER; hostname := host; process := "vector";
              pid := u32_as_i32 pid |} EmptyString LOG_INFO message now = Ret (Ok s).
Proof. eexists; apply format_vec. Qed.

(** C10. The encoder, whatever the serializer it calls, returns [Some]
    bytes or panics; it never returns [None]. *)
Theorem encode_event_some_or_panic ser event pid enc now :
  (exists out, encode_event_with ser event pid enc now = Ret (Some out)) \/
  (exists msg, encode_event_with ser event pid enc now = Panic msg).
Proof.
  destruct event as [log|name].
  - rewrite encode_event_with_Log.
    destruct (codec enc); [destruct (ser (filtered enc log))|]; eauto.
  - right; eexists; reflexivity.
Qed.

(** * Further properties of the encoder and of [build] *)

Lemma fields_filtered enc log :
  fields (filtered enc log) =
  filter (fun kv => negb (String.eqb (fst kv) host_key) && field_kept enc (fst kv))
         (fields log).
Proof.
  unfold filtered, apply_except_fields, apply_only_fields, remove, field_kept; simpl.
  destruct (only_fields enc) as [only|], (except_fields enc) as [ex|]; simpl;
    induction (fields log) as [|[k v] l IH]; simpl; try reflexivity;
    destruct (String.eqb k host_key); simpl; try exact IH;
    try destruct (mem k only); simpl; try exact IH;
    try destruct (mem k ex); simpl; rewrite IH; reflexivity.
Qed.

(** X1. [encode_event] returns [Some] bytes for every log event (neither
    [unwrap] can fail), and panics on a metric event ([as_mut_log]). *)
Theorem encode_event_log_or_metric pid enc now :
  (forall log, exists out, encode_event (Log log) pid enc now = Ret (Some out)) /\
  (forall name, exists msg, encode_event (Metric name) pid enc now = Panic msg).
Proof.
  split.
  - intros log; rewrite encode_event_Log; eexists; reflexivity.
  - intros name; eexists; reflexivity.
Qed.

(** X2. For a process id [pid] (a [u32]) the header is [<14>], the clock,
    the hostname followed by a space when the event has a host field, and
    the tag [vector[pid]:]; [pid as i32] shows an id of 2^31 or more as
    [pid - 2^32]. *)
Theorem encode_event_header log pid enc now :
  (0 <= pid < 2 ^ 32)%Z ->
  exists body,
    encode_event (Log log) pid enc now =
      Ret (Some ("<14>" ++ clock_text now ++ " " ++
                 match get host_key log with
                 | Some h => to_string_lossy h ++ " "
                 | None => EmptyString
                 end ++
                 "vector[" ++
                 Z_to_string (if (pid <? 2 ^ 31)%Z then pid else (pid - 2 ^ 32)%Z) ++
                 "]: " ++ body ++ String newline EmptyString)).
Proof.
  intros Hp; rewrite encode_event_Log.
  exists (match codec enc with
          | Json => render_json (json_of_log (filtered enc log))
          | Text => text_body (filtered enc log)
          end).
  unfold syslog_line, syslog_prefix, host_of, u32_as_i32.
  rewrite (Z.mod_small pid (2 ^ 32)) by exact Hp.
  destruct (get host_key log); cbn [option_map]; rewrite !append_assoc_s; reflexivity.
Qed.

Lemma encode_event_header_witness :
  (0 <= pid_max < 2 ^ 32)%Z /\
  exists body,
    encode_event (Log with_host_log) pid_max json_plain now0 =
      Ret (Some ("<14>" ++ clock_text now0 ++ " " ++ "h1 " ++ "vector[" ++
                 "-1" ++ "]: " ++ body ++ String newline EmptyString)).
Proof.
  split; [unfold pid_max; lia|].
  destruct (encode_event_header with_host_log pid_max json_plain now0)
    as (body & Hb); [unfold pid_max; lia|].
  exists body; rewrite Hb; reflexivity.
Defined.

Lemma filter_all_false {A : Type} (f : A -> bool) l :
  (forall x, In x l -> f x = false) -> filter f l = [].
Proof.
  induction l as [|x l IH]; intros H; simpl; [reflexivity|].
  rewrite H by (left; reflexivity); apply IH; intros y Hy; apply H; right; exact Hy.
Qed.

(** X3. When every field of the event is the host field or is dropped by the
    encoding rules, the body is empty: [{}] under Json and the empty string
    under Text. *)
Theorem encode_event_empty_body log pid enc now :
  (forall kv, In kv (fields log) -> fst kv = host_key \/ field_kept enc (fst kv) = false) ->
  encode_event (Log log) pid enc now =
    Ret (Some (syslog_line (host_of log) pid now
                 match codec enc with Json => "{}" | Text => EmptyString end)).
Proof.
  intros H.
  assert (Hf : fields (filtered enc log) = []).
  { rewrite fields_filtered; apply filter_all_false; intros kv Hin.
    destruct (H kv Hin) as [Hk | Hk].
    - rewrite Hk, String.eqb_refl; reflexivity.
    - rewrite Hk, andb_false_r; reflexivity. }
  rewrite encode_event_Log; destruct (codec enc).
  - unfold json_of_log; rewrite Hf; reflexivity.
  - unfold text_body, get; rewrite Hf; reflexivity.
Qed.

Lemma encode_event_empty_body_witness :
  (forall kv, In kv (fields with_host_log) ->
     fst kv = host_key \/ field_kept json_keep_none (fst kv) = false) /\
  encode_event (Log with_host_log) 0 json_keep_none now0 =
    Ret (Some (syslog_line (Some "h1") 0 now0 "{}")).
Proof.
  assert (H : forall kv, In kv (fields with_host_log) ->
            fst kv = host_key \/ field_kept json_keep_none (fst kv) = false).
  { intros kv [<- | [<- | []]]; [left | right]; reflexivity. }
  split; [exact H|].
  rewrite (encode_event_empty_body with_host_log 0 json_keep_none now0 H); reflexivity.
Defined.



Lemma map_fst_filter (p : string -> bool) (l : list (string * Value)) :
  map fst (filter (fun kv => p (fst kv)) l) = filter p (map fst l).
Proof.
  induction l as [|[k v] l IH]; simpl; [reflexivity|].
  destruct (p k); simpl; rewrite IH; reflexivity.
Qed.

(** X5. Under Json the body is a JSON object whose keys are the event's
    field names, in the event's order, less the host key and the names the
    rules drop. *)
Theorem json_body_key_order log pid enc now :
  codec enc = Json ->
  exists body kvs,
    encode_event (Log log) pid enc now =
      Ret (Some (syslog_line (host_of log) pid now body)) /\
    parse_json body = Some (JObject kvs) /\
    map fst kvs =
      filter (fun k => negb (String.eqb k host_key) && field_kept enc k) (map fst (fields log)).
Proof.
  intros Hc; rewrite encode_event_Log, Hc.
  destruct (json_body_keys enc log) as [Hp Hk].
  do 2 eexists; split; [reflexivity|]; split; [exact Hp|].
  rewrite Hk, fields_filtered.
  exact (map_fst_filter (fun k => negb (String.eqb k host_key) && field_kept enc k) _).
Qed.

Lemma json_body_key_order_witness :
  codec json_except_magic = Json /\
  exists body kvs,
    encode_event (Log vector_magic) 0 json_except_magic now0 =
      Ret (Some (syslog_line None 0 now0 body)) /\
    parse_json body = Some (JObject kvs) /\
    map fst kvs = ["message"].
Proof.
  split; [reflexivity|].
  exact (json_body_key_order vector_magic 0 json_except_magic now0 eq_refl).
Defined.
